(** * Camera model registry of COLMAP: src/base/camera_models.cc

    A shallow embedding of the functions of [camera_models.cc] and the
    properties of the registry, the parameter initializer, the
    introspection lookups and the validator.

    The functions of [camera_models.cc] are generated from two macros that
    [camera_models.h] defines:
    - [CAMERA_MODEL_CASES], one [CAMERA_MODEL_CASE] per camera model struct;
    - [CAMERA_MODEL_SWITCH_CASES], the labels of every [switch (model_id)]:
      one [case] per camera model struct, and what follows the last [case].
    The header is not modelled.  The list of camera models, what follows the
    last [case] and the constant [kInvalidCameraModelId] are the parameters of
    Section [CameraModels]; what the development takes over from the
    specification instead is marked as such. *)

From Stdlib Require Import ZArith NArith Uint63 PrimFloat.
From stdpp Require Import gmap strings list.

Local Open Scope Z_scope.

(** ** C++ data *)

(** [double] is IEEE binary64, [std::vector<double>] a list of them. *)
Abbreviation double := PrimFloat.float.
Abbreviation vector_double := (list PrimFloat.float).

(** [int] is a 32-bit two's complement integer and [size_t] a 64-bit unsigned
    one.  [int] values are kept in [Z], [size_t] values in [N]; the
    conversions between them are the modular ones. *)
Definition int_to_size_t (i : Z) : N := Z.to_N (i mod 18446744073709551616).

Definition size_t_to_int (n : N) : Z :=
  (Z.of_N n + 2147483648) mod 4294967296 - 2147483648.

(** Conversion of a [size_t] to [double] rounds to nearest.  63 bits fit the
    primitive conversion; a value with bit 63 set is halved with its lowest
    bit kept as a sticky bit, converted, and doubled. *)
Definition size_t_to_double (n : N) : double :=
  if (n <? 9223372036854775808)%N
  then PrimFloat.of_uint63 (Uint63.of_Z (Z.of_N n))
  else PrimFloat.mul
         (PrimFloat.of_uint63
            (Uint63.of_Z (Z.of_N (N.lor (N.shiftr n 1) (N.land n 1)))))
         2%float.

(** ** Camera models

    One record per camera model struct: the static members that
    [CAMERA_MODEL_CASE] defines in lines 27-39, and the static member function
    [HasBogusParams] that line 208 calls. *)
Record CameraModel := {
  model_id : Z;                          (* const int *)
  model_name : string;                   (* const std::string *)
  num_params : Z;                        (* const int *)
  params_info : string;                  (* const std::string *)
  focal_length_idxs : list N;            (* const std::vector<size_t> *)
  principal_point_idxs : list N;         (* const std::vector<size_t> *)
  extra_params_idxs : list N;            (* const std::vector<size_t> *)
  HasBogusParams :
    vector_double -> N -> N -> double -> double -> double -> bool
}.

(** What [CAMERA_MODEL_SWITCH_CASES] puts after the last [case]: nothing that
    ends the call, so that an id without a [case] leaves the [switch], or a
    [default:] that throws.  The macro expands to the same statements in all
    seven switches, and a [default:] that returned could not serve both the
    [void] function and those that return a value. *)
Inductive SwitchDefault := FallsOut | Throws.

(** ** Calls *)

(** How a call ends. *)
Inductive outcome (A : Type) :=
| Normal (a : A)        (* it returns [a] *)
| Thrown                (* an exception leaves it *)
| Undefined.            (* an access out of bounds: undefined behaviour *)
Arguments Normal {A} a.
Arguments Thrown {A}.
Arguments Undefined {A}.

(** Statements that work on the vector behind [params]: it is threaded
    through. *)
Definition M (A : Type) : Type := vector_double -> outcome A * vector_double.

#[global] Instance M_ret : MRet M := fun A a v => (Normal a, v).

#[global] Instance M_bind : MBind M := fun A B k c v =>
  match c v with
  | (Normal a, v') => k a v'
  | (Thrown, v') => (Thrown, v')
  | (Undefined, v') => (Undefined, v')
  end.

(** [std::vector<double>::max_size()] for a 64-bit [ptrdiff_t] and elements of
    eight bytes, [PTRDIFF_MAX / sizeof(double)].  Where an implementation
    reports more, the allocation of a larger size fails all the same. *)
Definition vector_max_size : N := 1152921504606846975.

(** [params->resize(n)]: a size above [max_size()] throws and leaves the
    vector as it is; otherwise new elements are value-initialized.  Running
    out of memory below that size is not modelled. *)
Definition vector_resize (n : N) : M unit :=
  fun v =>
    if (n <=? vector_max_size)%N
    then (Normal tt, resize (N.to_nat n) 0%float v)
    else (Thrown, v).

(** A store to element [idx] of the vector behind [params]. *)
Definition vector_store (idx : N) (x : double) : M unit :=
  fun v =>
    if decide (N.to_nat idx < length v)%nat
    then (Normal tt, <[N.to_nat idx := x]> v)
    else (Undefined, v).

(** [idxs[i]] on a [const std::vector<size_t>] *)
Definition idxs_at (idxs : list N) (i : nat) : M N :=
  fun v =>
    match idxs !! i with
    | Some idx => (Normal idx, v)
    | None => (Undefined, v)
    end.

(** [for (const int idx : idxs)] with a store of [x] to element [idx]: every
    element of [idxs] is converted to [int], and back to [size_t] by the
    subscript. *)
Fixpoint store_each (idxs : list N) (x : double) : M unit :=
  match idxs with
  | [] => mret tt
  | idx :: rest =>
      vector_store (int_to_size_t (size_t_to_int idx)) x ;;
      store_each rest x
  end.

(** ** Parts of [camera_models.h], after the specification *)

(** Modelled from the spec: [params[idx]] in the member function
    [HasBogusParams] of a camera model, whose body is in [camera_models.h]. *)
Definition params_at (params : vector_double) (idx : N) : double :=
  default 0%float (params !! N.to_nat idx).

(** Modelled from the spec: step 2 of section 4.5, part of the member function
    [HasBogusParams] of [camera_models.h].  With [ratio = params[idx] /
    max_dim], the focal length at [idx] is bogus if [ratio <
    min_focal_length_ratio] or [ratio > max_focal_length_ratio]. *)
Definition bogus_focal_length (params : vector_double) (max_dim : double)
    (min_focal_length_ratio max_focal_length_ratio : double) (idx : N) : bool :=
  let ratio := PrimFloat.div (params_at params idx) max_dim in
  PrimFloat.ltb ratio min_focal_length_ratio
  || PrimFloat.ltb max_focal_length_ratio ratio.

(** Modelled from the spec: step 3 of section 4.5, part of the member function
    [HasBogusParams] of [camera_models.h].  The extra parameter at [idx] is
    bogus if [abs(params[idx]) > max_extra_param]. *)
Definition bogus_extra_param (params : vector_double)
    (max_extra_param : double) (idx : N) : bool :=
  PrimFloat.ltb max_extra_param (PrimFloat.abs (params_at params idx)).

(** Modelled from the spec: the member function [HasBogusParams] of a camera
    model, whose body is in [camera_models.h].  Section 4.5, steps 1 to 3:
    [max_dim = max(width, height)], and the parameters are bogus if some index
    of [focal_length_idxs] has a bogus focal length or some index of
    [extra_params_idxs] a bogus extra parameter. *)
Definition spec_HasBogusParams (focal_idxs extra_idxs : list N)
    (params : vector_double) (width height : N)
    (min_focal_length_ratio max_focal_length_ratio max_extra_param : double)
  : bool :=
  let max_dim := size_t_to_double (N.max width height) in
  existsb (bogus_focal_length params max_dim
             min_focal_length_ratio max_focal_length_ratio) focal_idxs
  || existsb (bogus_extra_param params max_extra_param) extra_idxs.

(** ** A table to run the operations on

    Two camera models with the layouts of the examples of section 8 of the
    spec: a pinhole-style model (id 0, four parameters fx, fy, cx, cy, focal
    length indices 0 and 1, principal point indices 2 and 3, no extra
    parameter) and a distortion-bearing model (id 2, extra index 4).  Their
    names and descriptions are chosen here. *)
Definition PinholeCameraModel : CameraModel := {|
  model_id := 0;
  model_name := "PINHOLE";
  num_params := 4;
  params_info := "fx, fy, cx, cy";
  focal_length_idxs := [0; 1]%N;
  principal_point_idxs := [2; 3]%N;
  extra_params_idxs := [];
  HasBogusParams := spec_HasBogusParams [0; 1]%N []
|}.

Definition RadialCameraModel : CameraModel := {|
  model_id := 2;
  model_name := "RADIAL";
  num_params := 5;
  params_info := "fx, fy, cx, cy, k";
  focal_length_idxs := [0; 1]%N;
  principal_point_idxs := [2; 3]%N;
  extra_params_idxs := [4]%N;
  HasBogusParams := spec_HasBogusParams [0; 1]%N [4]%N
|}.

Definition example_cases : list CameraModel :=
  [PinholeCameraModel; RadialCameraModel].

(** ** The layout of a camera model (section 3 of the spec) *)

Definition in_range (c : CameraModel) (idx : N) : bool :=
  Z.of_N idx <? num_params c.

(** [num_params] is an [int] and not negative. *)
Definition valid_num_params (c : CameraModel) : bool :=
  (0 <=? num_params c) && (num_params c <=? 2147483647).

(** [num_params] is a non-negative [int], every index is below it, and there
    are the two principal point indices that lines 108 and 109 read. *)
Definition well_formed (c : CameraModel) : bool :=
  valid_num_params c
  && forallb (in_range c) (focal_length_idxs c)
  && match principal_point_idxs c with
     | i0 :: i1 :: _ => in_range c i0 && in_range c i1
     | _ => false
     end
  && forallb (in_range c) (extra_params_idxs c).

Definition mem (idx : N) (idxs : list N) : bool :=
  existsb (N.eqb idx) idxs.


(** The stores of a [for] loop over [idxs], as one update of the vector. *)
Definition store_all (idxs : list N) (x : double) (v : vector_double)
  : vector_double :=
  foldl (fun v idx => <[N.to_nat idx := x]> v) v idxs.

(** The vector that the statements of one [case] of lines 104-112 leave, when
    no store is out of bounds. *)
Definition initialized (c : CameraModel) (focal_length : double)
    (width height : N) (params : vector_double) : vector_double :=
  match principal_point_idxs c with
  | i0 :: i1 :: _ =>
      store_all (extra_params_idxs c) 0%float
        (<[N.to_nat i1 := PrimFloat.div (size_t_to_double height) 2%float]>
           (<[N.to_nat i0 := PrimFloat.div (size_t_to_double width) 2%float]>
              (store_all (focal_length_idxs c) focal_length
                 (resize (Z.to_nat (num_params c)) 0%float params))))
  | _ => params
  end.

(** Two more camera models to run the operations on: one that shares its
    name with [RadialCameraModel], and one whose index groups leave slot 3
    out. *)
Definition RenamedCameraModel : CameraModel := {|
  model_id := 9;
  model_name := "RADIAL";
  num_params := 3;
  params_info := "f, cx, cy";
  focal_length_idxs := [0]%N;
  principal_point_idxs := [1; 2]%N;
  extra_params_idxs := [];
  HasBogusParams := spec_HasBogusParams [0]%N []
|}.

Definition GappedCameraModel : CameraModel := {|
  model_id := 5;
  model_name := "GAPPED";
  num_params := 4;
  params_info := "f, cx, cy, unused";
  focal_length_idxs := [0]%N;
  principal_point_idxs := [1; 2]%N;
  extra_params_idxs := [];
  HasBogusParams := spec_HasBogusParams [0]%N []
|}.

(** A camera model whose index groups share slots: slot 1 is a focal length
    and the principal point x, slot 2 the principal point y and an extra
    parameter. *)
Definition OverlappingCameraModel : CameraModel := {|
  model_id := 6;
  model_name := "OVERLAPPING";
  num_params := 3;
  params_info := "f, f_cx, cy_k";
  focal_length_idxs := [0; 1]%N;
  principal_point_idxs := [1; 2]%N;
  extra_params_idxs := [2]%N;
  HasBogusParams := spec_HasBogusParams [0; 1]%N [2]%N
|}.

(** A camera model with a negative [num_params]. *)
Definition NegativeCameraModel : CameraModel := {|
  model_id := 8;
  model_name := "NEGATIVE";
  num_params := -1;
  params_info := "";
  focal_length_idxs := [];
  principal_point_idxs := [];
  extra_params_idxs := [];
  HasBogusParams := spec_HasBogusParams [] []
|}.

(** A statement that neither throws nor changes the size of the vector. *)
Definition size_kept {A} (c : M A) : Prop :=
  forall v, fst (c v) <> Thrown /\ length (snd (c v)) = length v.

(** The slot [j] is the target of a store of lines 105-112. *)
Definition written (c : CameraModel) (j : N) : bool :=
  mem j (focal_length_idxs c)
  || match principal_point_idxs c with
     | i0 :: i1 :: _ => N.eqb j i0 || N.eqb j i1
     | _ => false
     end
  || mem j (extra_params_idxs c).

(** Every slot below [num_params] is the target of a store. *)
Definition covered (c : CameraModel) : bool :=
  forallb (fun j => written c (N.of_nat j))
          (seq 0 (Z.to_nat (num_params c))).

Section CameraModels.

(** The expansion of [CAMERA_MODEL_CASES], in its order. *)
Variable CAMERA_MODEL_CASES : list CameraModel.
(** The tail of [CAMERA_MODEL_SWITCH_CASES]. *)
Variable switch_default : SwitchDefault.
(** [kInvalidCameraModelId] of the header. *)
Variable kInvalidCameraModelId : Z.

(** *** The registry, lines 45-93 *)

(** [std::unordered_map::emplace] keeps the element of a key it has. *)
Definition emplace `{Countable K} {V} (k : K) (v : V) (m : gmap K V)
  : gmap K V :=
  match m !! k with
  | Some _ => m
  | None => <[k := v]> m
  end.

Definition InitialzeCameraModelNameToId : gmap string Z :=
  foldl (fun m c => emplace (model_name c) (model_id c) m)
        ∅ CAMERA_MODEL_CASES.

Definition CAMERA_MODEL_NAME_TO_ID : gmap string Z :=
  InitialzeCameraModelNameToId.

Definition CameraModelNameToId (name : string) : Z :=
  match CAMERA_MODEL_NAME_TO_ID !! name with
  | Some id => id
  | None => kInvalidCameraModelId
  end.

Definition InitialzeCameraModelIdToName : gmap Z string :=
  foldl (fun m c => emplace (model_id c) (model_name c) m)
        ∅ CAMERA_MODEL_CASES.

Definition CAMERA_MODEL_ID_TO_NAME : gmap Z string :=
  InitialzeCameraModelIdToName.

Definition CameraModelIdToName (id : Z) : string :=
  match CAMERA_MODEL_ID_TO_NAME !! id with
  | Some name => name
  | None => "INVALID_CAMERA_MODEL"
  end.

(** *** [switch (model_id)] *)

(** The [case] that [id] selects.  The labels of a switch are distinct, or it
    does not compile; of equal labels the first would be taken here. *)
Definition switch_case (id : Z) : option CameraModel :=
  List.find (fun c => Z.eqb (model_id c) id) CAMERA_MODEL_CASES.

(** A switch in a function that returns a value: [Some r] when the call
    ends inside the switch, [None] when control leaves the switch. *)
Definition switch {A} (id : Z) (case : CameraModel -> option (outcome A))
  : option (outcome A) :=
  match switch_case id with
  | Some c => case c
  | None =>
      match switch_default with
      | FallsOut => None
      | Throws => Some Thrown
      end
  end.

(** *** [CameraModelInitializeParams], lines 95-119 *)

Definition InitializeParams_case (c : CameraModel)
    (focal_length : double) (width height : N) : M unit :=
  vector_resize (int_to_size_t (num_params c)) ;;
  store_each (focal_length_idxs c) focal_length ;;
  i0 ← idxs_at (principal_point_idxs c) 0 ;
  vector_store i0 (PrimFloat.div (size_t_to_double width) 2%float) ;;
  i1 ← idxs_at (principal_point_idxs c) 1 ;
  vector_store i1 (PrimFloat.div (size_t_to_double height) 2%float) ;;
  store_each (extra_params_idxs c) 0%float.

Definition CameraModelInitializeParams (id : Z) (focal_length : double)
    (width height : N) : M unit :=
  match switch_case id with
  | Some c => InitializeParams_case c focal_length width height
  | None =>
      match switch_default with
      | FallsOut => mret tt
      | Throws => fun v => (Thrown, v)
      end
  end.

(** *** The introspection lookups, lines 121-179 *)

Definition CameraModelParamsInfo (id : Z) : outcome string :=
  match switch id (fun c => Some (Normal (params_info c))) with
  | Some r => r
  | None => Normal "Camera model does not exist"%string
  end.

Definition CameraModelFocalLengthIdxs (id : Z) : outcome (list N) :=
  match switch id (fun c => Some (Normal (focal_length_idxs c))) with
  | Some r => r
  | None => Normal []
  end.

Definition CameraModelPrincipalPointIdxs (id : Z) : outcome (list N) :=
  match switch id (fun c => Some (Normal (principal_point_idxs c))) with
  | Some r => r
  | None => Normal []
  end.

Definition CameraModelExtraParamsIdxs (id : Z) : outcome (list N) :=
  match switch id (fun c => Some (Normal (extra_params_idxs c))) with
  | Some r => r
  | None => Normal []
  end.

(** *** The validator, lines 181-219 *)

(** [params.size() == CameraModel::num_params] compares as [size_t]. *)
Definition CameraModelVerifyParams (id : Z) (params : vector_double)
  : outcome bool :=
  match switch id (fun c =>
          if N.eqb (N.of_nat (length params)) (int_to_size_t (num_params c))
          then Some (Normal true)
          else None) with
  | Some r => r
  | None => Normal false
  end.

Definition CameraModelHasBogusParams (id : Z) (params : vector_double)
    (width height : N)
    (min_focal_length_ratio max_focal_length_ratio max_extra_param : double)
  : outcome bool :=
  match switch id (fun c =>
          Some (Normal (HasBogusParams c params width height
                          min_focal_length_ratio max_focal_length_ratio
                          max_extra_param))) with
  | Some r => r
  | None => Normal false
  end.

(** *** Registered ids *)

(** [id] is the [model_id] of no camera model of [CAMERA_MODEL_CASES]. *)
Definition unregistered (id : Z) : Prop :=
  forall c, c ∈ CAMERA_MODEL_CASES -> model_id c <> id.

(** How a call ends that reaches the end of a switch without a matching
    label, when [a] is what the statements after the switch return. *)
Definition unmatched {A} (a : A) : outcome A :=
  match switch_default with
  | FallsOut => Normal a
  | Throws => Thrown
  end.

(** [name] is the [model_name] of no camera model of [CAMERA_MODEL_CASES]. *)
Definition unregistered_name (name : string) : Prop :=
  forall c, c ∈ CAMERA_MODEL_CASES -> model_name c <> name.

(** ** Dispatch *)

Lemma switch_case_Some id c :
  switch_case id = Some c -> c ∈ CAMERA_MODEL_CASES /\ model_id c = id.
Proof.
  unfold switch_case. intros Hf.
  apply find_some in Hf as [Hin Heq].
  split; [by apply list_elem_of_In | by apply Z.eqb_eq].
Qed.

Lemma switch_case_None id : switch_case id = None <-> unregistered id.
Proof.
  unfold switch_case, unregistered. split.
  - intros Hf c Hc Hid.
    apply list_elem_of_In in Hc.
    pose proof (find_none _ _ Hf c Hc) as Hne. simpl in Hne.
    apply Z.eqb_neq in Hne. done.
  - intros Hun. induction CAMERA_MODEL_CASES as [|c l IH]; [done|].
    simpl. destruct (Z.eqb_spec (model_id c) id) as [Heq|Hne].
    + exfalso. apply (Hun c); [left | done].
    + apply IH. intros c' Hc'. apply Hun. by right.
Qed.

Lemma switch_case_elem c :
  NoDup (model_id <$> CAMERA_MODEL_CASES) ->
  c ∈ CAMERA_MODEL_CASES -> switch_case (model_id c) = Some c.
Proof.
  unfold switch_case.
  induction CAMERA_MODEL_CASES as [|c' l IH]; intros Hnd Hc.
  - by apply elem_of_nil in Hc.
  - simpl. apply NoDup_cons in Hnd as [Hnotin Hnd].
    destruct (Z.eqb_spec (model_id c') (model_id c)) as [Heq|Hne].
    + apply elem_of_cons in Hc as [->|Hc]; [done|].
      exfalso. apply Hnotin. rewrite Heq.
      apply list_elem_of_fmap. by exists c.
    + apply elem_of_cons in Hc as [->|Hc]; [done|]. by apply IH.
Qed.

Lemma switch_unregistered {A} id (case : CameraModel -> option (outcome A)) :
  unregistered id ->
  switch id case =
    match switch_default with FallsOut => None | Throws => Some Thrown end.
Proof.
  intros Hun. apply switch_case_None in Hun.
  unfold switch. by rewrite Hun.
Qed.

Lemma switch_registered {A} id c (case : CameraModel -> option (outcome A)) :
  switch_case id = Some c -> switch id case = case c.
Proof. intros Hc. unfold switch. by rewrite Hc. Qed.

(** On an unregistered id, the Initializer runs the tail of the switch and
    nothing else. *)
Lemma CameraModelInitializeParams_unregistered id f w h params :
  unregistered id ->
  CameraModelInitializeParams id f w h params = (unmatched tt, params).
Proof.
  intros Hun. apply switch_case_None in Hun.
  unfold CameraModelInitializeParams, unmatched. rewrite Hun.
  by destruct switch_default.
Qed.

Lemma CameraModelHasBogusParams_unregistered id params w h r1 r2 e :
  unregistered id ->
  CameraModelHasBogusParams id params w h r1 r2 e = unmatched false.
Proof.
  intros Hun. unfold CameraModelHasBogusParams, unmatched.
  rewrite switch_unregistered by done. by destruct switch_default.
Qed.

(** ** Integer conversions *)

Lemma int_to_size_t_small n :
  0 <= n < 18446744073709551616 -> int_to_size_t n = Z.to_N n.
Proof. intros Hn. unfold int_to_size_t. by rewrite Z.mod_small. Qed.

Lemma valid_num_params_spec c :
  valid_num_params c = true <-> 0 <= num_params c <= 2147483647.
Proof. unfold valid_num_params. rewrite andb_true_iff. lia. Qed.

Lemma size_eqb_num_params c (params : vector_double) :
  valid_num_params c = true ->
  N.eqb (N.of_nat (length params)) (int_to_size_t (num_params c)) = true
  <-> Z.of_nat (length params) = num_params c.
Proof.
  intros Hv%valid_num_params_spec.
  rewrite int_to_size_t_small by lia. rewrite N.eqb_eq. lia.
Qed.

(** ** Unregistered ids *)

(** C10: for a [model_id] that is no registered variant,
    [CameraModelInitializeParams] leaves the vector of the caller as it
    is: the vector after the call is the vector before it, of the same
    size and with the same elements.  This holds whatever the tail of the
    switch does. *)
Theorem CameraModelInitializeParams_unknown_unchanged id f w h params :
  unregistered id ->
  snd (CameraModelInitializeParams id f w h params) = params.
Proof.
  intros Hun. by rewrite CameraModelInitializeParams_unregistered.
Qed.

(** One macro closes the switch of the Initializer and that of the
    validator: on an unregistered id, the Initializer fails exactly when the
    validator fails.  Whether they fail is decided in [camera_models.h]. *)
Lemma unknown_fails_together id f w h params params' w' h' r1 r2 e :
  unregistered id ->
  fst (CameraModelInitializeParams id f w h params) = Thrown
  <-> CameraModelHasBogusParams id params' w' h' r1 r2 e = Thrown.
Proof.
  intros Hun.
  rewrite CameraModelInitializeParams_unregistered by done.
  rewrite CameraModelHasBogusParams_unregistered by done.
  unfold unmatched. by destruct switch_default.
Qed.

(** C2, as the code has it: for a [model_id] that is no registered
    variant, the four lookups run the tail of the switch.  When it leaves
    the switch, [CameraModelParamsInfo] returns the fixed string
    "Camera model does not exist" and the three index lookups return the
    empty sequence; when it throws, none of the four returns. *)
Theorem introspection_unknown id :
  unregistered id ->
  match switch_default with
  | FallsOut =>
      CameraModelParamsInfo id = Normal "Camera model does not exist"%string
      /\ CameraModelFocalLengthIdxs id = Normal []
      /\ CameraModelPrincipalPointIdxs id = Normal []
      /\ CameraModelExtraParamsIdxs id = Normal []
  | Throws =>
      CameraModelParamsInfo id = Thrown
      /\ CameraModelFocalLengthIdxs id = Thrown
      /\ CameraModelPrincipalPointIdxs id = Thrown
      /\ CameraModelExtraParamsIdxs id = Thrown
  end.
Proof.
  intros Hun.
  unfold CameraModelParamsInfo, CameraModelFocalLengthIdxs,
    CameraModelPrincipalPointIdxs, CameraModelExtraParamsIdxs.
  rewrite !switch_unregistered by done.
  by destruct switch_default.
Qed.

(** ** [CameraModelVerifyParams] *)

Lemma CameraModelVerifyParams_registered id c params :
  switch_case id = Some c ->
  CameraModelVerifyParams id params =
    Normal (N.eqb (N.of_nat (length params)) (int_to_size_t (num_params c))).
Proof.
  intros Hc. unfold CameraModelVerifyParams.
  rewrite (switch_registered _ c) by done.
  by destruct (N.eqb _ _).
Qed.

(** C3: [CameraModelVerifyParams] returns true if and only if [model_id]
    selects a registered variant and the vector has as many elements as the
    [num_params] of that variant; for a registered variant and a vector of
    another length it returns false; and the result depends on the length
    of the vector alone, not on its elements. *)
Theorem CameraModelVerifyParams_structural id params :
  forallb valid_num_params CAMERA_MODEL_CASES = true ->
  (CameraModelVerifyParams id params = Normal true <->
     exists c, switch_case id = Some c
               /\ Z.of_nat (length params) = num_params c)
  /\ (forall c, switch_case id = Some c ->
        Z.of_nat (length params) <> num_params c ->
        CameraModelVerifyParams id params = Normal false)
  /\ (forall params', length params' = length params ->
        CameraModelVerifyParams id params'
        = CameraModelVerifyParams id params).
Proof.
  intros Hvalid.
  assert (Hv : forall c, switch_case id = Some c ->
                         valid_num_params c = true).
  { intros c [Hc _]%switch_case_Some.
    rewrite forallb_forall in Hvalid. apply Hvalid.
    by apply list_elem_of_In. }
  split; [|split].
  - destruct (switch_case id) as [c|] eqn:Hc.
    + rewrite (CameraModelVerifyParams_registered id c) by done.
      pose proof (size_eqb_num_params c params (Hv c eq_refl)) as Hsz.
      split.
      * intros [= Heq]. exists c. split; [done | by apply Hsz].
      * intros (c' & [= <-] & Hlen). f_equal. by apply Hsz.
    + split.
      * unfold CameraModelVerifyParams, switch. rewrite Hc.
        by destruct switch_default.
      * by intros (c' & [=] & _).
  - intros c Hc Hlen.
    rewrite (CameraModelVerifyParams_registered id c) by done.
    f_equal. apply not_true_is_false. intros Heq.
    by apply (size_eqb_num_params c params (Hv c Hc)) in Heq.
  - intros params' Hlen.
    unfold CameraModelVerifyParams. by rewrite Hlen.
Qed.

(** ** The registry *)

Lemma foldl_emplace_lookup `{Countable K} {V}
    (key : CameraModel -> K) (val : CameraModel -> V)
    (l : list CameraModel) (m : gmap K V) (k : K) :
  foldl (fun m c => emplace (key c) (val c) m) m l !! k =
    match m !! k with
    | Some v => Some v
    | None => val <$> List.find (fun c => bool_decide (key c = k)) l
    end.
Proof.
  revert m. induction l as [|c l IH]; intros m; simpl.
  - by destruct (m !! k).
  - rewrite IH. unfold emplace.
    destruct (m !! key c) as [v|] eqn:Hm.
    + case_bool_decide as Hk; [|done]. subst k. by rewrite Hm.
    + case_bool_decide as Hk.
      * subst k. by rewrite lookup_insert_eq, Hm.
      * by rewrite lookup_insert_ne.
Qed.

Lemma find_key_Some `{EqDecision K} (key : CameraModel -> K) l k c :
  List.find (fun c => bool_decide (key c = k)) l = Some c ->
  c ∈ l /\ key c = k.
Proof.
  intros Hf. apply find_some in Hf as [Hin Heq].
  split; [by apply list_elem_of_In | by apply bool_decide_eq_true in Heq].
Qed.

Lemma find_key_None `{EqDecision K} (key : CameraModel -> K) l k :
  List.find (fun c => bool_decide (key c = k)) l = None ->
  forall c, c ∈ l -> key c <> k.
Proof.
  intros Hf c Hc%list_elem_of_In Hk.
  pose proof (find_none _ _ Hf c Hc) as Hne. simpl in Hne.
  by apply bool_decide_eq_false in Hne.
Qed.

Lemma find_key_elem `{EqDecision K} (key : CameraModel -> K) l c :
  NoDup (key <$> l) -> c ∈ l ->
  List.find (fun c' => bool_decide (key c' = key c)) l = Some c.
Proof.
  induction l as [|c' l IH]; intros Hnd Hc.
  - by apply elem_of_nil in Hc.
  - simpl. apply NoDup_cons in Hnd as [Hnotin Hnd].
    case_bool_decide as Hk.
    + apply elem_of_cons in Hc as [->|Hc]; [done|].
      exfalso. apply Hnotin. rewrite Hk.
      apply list_elem_of_fmap. by exists c.
    + apply elem_of_cons in Hc as [->|Hc]; [done|]. by apply IH.
Qed.

Lemma CameraModelNameToId_find name :
  CameraModelNameToId name =
    match List.find (fun c => bool_decide (model_name c = name))
                    CAMERA_MODEL_CASES with
    | Some c => model_id c
    | None => kInvalidCameraModelId
    end.
Proof.
  unfold CameraModelNameToId, CAMERA_MODEL_NAME_TO_ID,
    InitialzeCameraModelNameToId.
  rewrite foldl_emplace_lookup, lookup_empty.
  by destruct (List.find _ _).
Qed.

Lemma CameraModelIdToName_find id :
  CameraModelIdToName id =
    match List.find (fun c => bool_decide (model_id c = id))
                    CAMERA_MODEL_CASES with
    | Some c => model_name c
    | None => "INVALID_CAMERA_MODEL"%string
    end.
Proof.
  unfold CameraModelIdToName, CAMERA_MODEL_ID_TO_NAME,
    InitialzeCameraModelIdToName.
  rewrite foldl_emplace_lookup, lookup_empty.
  by destruct (List.find _ _).
Qed.

(** C7: [CameraModelNameToId] returns the id of a registered variant whose
    [model_name] is the argument, character for character, and the invalid-id
    sentinel [kInvalidCameraModelId] when no registered name equals the
    argument; [CameraModelIdToName] returns the name of a registered variant
    whose [model_id] is the argument, and the fixed string
    "INVALID_CAMERA_MODEL" when the id is not registered. *)
Theorem name_id_lookups :
  (forall name,
      (exists c, c ∈ CAMERA_MODEL_CASES /\ model_name c = name
                 /\ CameraModelNameToId name = model_id c)
      \/ ((forall c, c ∈ CAMERA_MODEL_CASES -> model_name c <> name)
          /\ CameraModelNameToId name = kInvalidCameraModelId))
  /\ (forall id,
      (exists c, c ∈ CAMERA_MODEL_CASES /\ model_id c = id
                 /\ CameraModelIdToName id = model_name c)
      \/ (unregistered id
          /\ CameraModelIdToName id = "INVALID_CAMERA_MODEL"%string)).
Proof.
  split.
  - intros name. rewrite CameraModelNameToId_find.
    destruct (List.find _ _) as [c|] eqn:Hf.
    + left. exists c. apply find_key_Some in Hf as [Hc Hn]. done.
    + right. split; [|done]. by apply find_key_None.
  - intros id. rewrite CameraModelIdToName_find.
    destruct (List.find _ _) as [c|] eqn:Hf.
    + left. exists c. apply find_key_Some in Hf as [Hc Hn]. done.
    + right. split; [|done]. unfold unregistered. by apply find_key_None.
Qed.

(** C5: when ids and names are unique across the variants, the two lookups
    are inverse to each other on every registered variant:
    [CameraModelNameToId (CameraModelIdToName id) = id] for its id, and
    [CameraModelIdToName (CameraModelNameToId name) = name] for its name. *)
Theorem name_id_inverse c :
  NoDup (model_id <$> CAMERA_MODEL_CASES) ->
  NoDup (model_name <$> CAMERA_MODEL_CASES) ->
  c ∈ CAMERA_MODEL_CASES ->
  CameraModelNameToId (CameraModelIdToName (model_id c)) = model_id c
  /\ CameraModelIdToName (CameraModelNameToId (model_name c)) = model_name c.
Proof.
  intros Hids Hnames Hc.
  assert (Hid : CameraModelIdToName (model_id c) = model_name c).
  { rewrite CameraModelIdToName_find. by rewrite find_key_elem. }
  assert (Hname : CameraModelNameToId (model_name c) = model_id c).
  { rewrite CameraModelNameToId_find. by rewrite find_key_elem. }
  by rewrite Hid, Hname.
Qed.

(** ** Stores *)

Lemma index_through_int idx :
  Z.of_N idx <= 2147483647 -> int_to_size_t (size_t_to_int idx) = idx.
Proof.
  intros Hidx. unfold size_t_to_int.
  rewrite (Z.mod_small (Z.of_N idx + 2147483648)) by lia.
  rewrite int_to_size_t_small by lia. lia.
Qed.

Lemma bind_run {A B} (c : M A) (k : A -> M B) v :
  (c ≫= k) v =
    match c v with
    | (Normal a, v') => k a v'
    | (Thrown, v') => (Thrown, v')
    | (Undefined, v') => (Undefined, v')
    end.
Proof. reflexivity. Qed.

Lemma vector_store_ok idx x (v : vector_double) :
  (N.to_nat idx < length v)%nat ->
  vector_store idx x v = (Normal tt, <[N.to_nat idx := x]> v).
Proof. intros Hlt. unfold vector_store. by rewrite decide_True. Qed.

Lemma store_all_length idxs x v : length (store_all idxs x v) = length v.
Proof.
  unfold store_all. revert v.
  induction idxs as [|idx idxs IH]; intros v; simpl; [done|].
  by rewrite IH, length_insert.
Qed.

Lemma store_all_lookup_other idxs x (v : vector_double) (j : nat) :
  (forall idx, idx ∈ idxs -> N.to_nat idx <> j) ->
  store_all idxs x v !! j = v !! j.
Proof.
  unfold store_all. revert v.
  induction idxs as [|idx idxs IH]; intros v Hother; simpl; [done|].
  rewrite IH by (intros idx' Hidx'; apply Hother; by right).
  apply list_lookup_insert_ne, Hother. by left.
Qed.

Lemma store_all_lookup_notin idxs x (v : vector_double) idx :
  idx ∉ idxs -> store_all idxs x v !! N.to_nat idx = v !! N.to_nat idx.
Proof.
  intros Hnotin. apply store_all_lookup_other.
  intros i Hi Heq. apply Hnotin. by replace idx with i by lia.
Qed.

Lemma store_all_lookup idxs x (v : vector_double) idx :
  idx ∈ idxs -> (N.to_nat idx < length v)%nat ->
  store_all idxs x v !! N.to_nat idx = Some x.
Proof.
  unfold store_all. revert v.
  induction idxs as [|idx' idxs IH]; intros v Hin Hlt.
  - by apply elem_of_nil in Hin.
  - simpl. destruct (decide (idx ∈ idxs)) as [Hrest|Hrest].
    + apply IH; [done | by rewrite length_insert].
    + apply elem_of_cons in Hin as [->|Hin]; [|done].
      fold (store_all idxs x (<[N.to_nat idx' := x]> v)).
      rewrite store_all_lookup_notin by done.
      by apply list_lookup_insert_eq.
Qed.

Lemma store_each_ok idxs x (v : vector_double) :
  (forall idx, idx ∈ idxs ->
               Z.of_N idx <= 2147483647 /\ (N.to_nat idx < length v)%nat) ->
  store_each idxs x v = (Normal tt, store_all idxs x v).
Proof.
  unfold store_all. revert v.
  induction idxs as [|idx idxs IH]; intros v Hok; simpl; [done|].
  destruct (Hok idx) as [Hint Hlt]; [by left|].
  rewrite bind_run, index_through_int by done.
  rewrite vector_store_ok by done.
  apply IH. intros idx' Hidx'. rewrite length_insert.
  apply Hok. by right.
Qed.

(** ** The layout of a well-formed camera model *)

Lemma in_range_spec c idx :
  in_range c idx = true <-> Z.of_N idx < num_params c.
Proof. unfold in_range. apply Z.ltb_lt. Qed.

Lemma forallb_in_range c idxs :
  forallb (in_range c) idxs = true ->
  forall idx, idx ∈ idxs -> Z.of_N idx < num_params c.
Proof.
  intros Hall idx Hidx%list_elem_of_In.
  rewrite forallb_forall in Hall. by apply in_range_spec, Hall.
Qed.

Lemma mem_false idx idxs : mem idx idxs = false -> idx ∉ idxs.
Proof.
  unfold mem. intros Hmem Hin%list_elem_of_In.
  assert (existsb (N.eqb idx) idxs = true) as Hex; [|congruence].
  apply existsb_exists. exists idx. split; [done | apply N.eqb_refl].
Qed.

Lemma well_formed_spec c :
  well_formed c = true ->
  0 <= num_params c <= 2147483647
  /\ (forall idx, idx ∈ focal_length_idxs c -> Z.of_N idx < num_params c)
  /\ (exists i0 i1 rest,
        principal_point_idxs c = i0 :: i1 :: rest
        /\ Z.of_N i0 < num_params c /\ Z.of_N i1 < num_params c)
  /\ (forall idx, idx ∈ extra_params_idxs c -> Z.of_N idx < num_params c).
Proof.
  unfold well_formed. rewrite !andb_true_iff.
  intros [[[Hn Hfocal] Hpp] Hextra].
  split; [by apply valid_num_params_spec|].
  split; [by apply forallb_in_range|].
  split; [|by apply forallb_in_range].
  destruct (principal_point_idxs c) as [|i0 [|i1 rest]]; try done.
  apply andb_true_iff in Hpp as [H0%in_range_spec H1%in_range_spec].
  by exists i0, i1, rest.
Qed.

Lemma initialized_length c f w h params :
  well_formed c = true ->
  Z.of_nat (length (initialized c f w h params)) = num_params c.
Proof.
  intros (Hn & _ & (i0 & i1 & rest & Hpp & _) & _)%well_formed_spec.
  unfold initialized. rewrite Hpp.
  rewrite store_all_length, !length_insert, store_all_length, length_resize.
  lia.
Qed.

Lemma vector_resize_ok n (v : vector_double) :
  (n <= vector_max_size)%N ->
  vector_resize n v = (Normal tt, resize (N.to_nat n) 0%float v).
Proof.
  intros Hn. unfold vector_resize. by rewrite (proj2 (N.leb_le _ _)).
Qed.

Lemma vector_resize_throws n (v : vector_double) :
  (vector_max_size < n)%N -> vector_resize n v = (Thrown, v).
Proof.
  intros Hn. unfold vector_resize. by rewrite (proj2 (N.leb_gt _ _)).
Qed.

Lemma InitializeParams_case_ok c f w h params :
  well_formed c = true ->
  InitializeParams_case c f w h params
  = (Normal tt, initialized c f w h params).
Proof.
  intros (Hn & Hfocal & (i0 & i1 & rest & Hpp & Hi0 & Hi1) & Hextra)
    %well_formed_spec.
  unfold InitializeParams_case, initialized. rewrite Hpp.
  rewrite bind_run, vector_resize_ok
    by (rewrite int_to_size_t_small by lia; unfold vector_max_size; lia).
  rewrite int_to_size_t_small by lia.
  replace (N.to_nat (Z.to_N (num_params c))) with (Z.to_nat (num_params c))
    by lia.
  set (v0 := resize (Z.to_nat (num_params c)) 0%float params).
  assert (Hv0 : length v0 = Z.to_nat (num_params c))
    by apply length_resize.
  rewrite bind_run, store_each_ok
    by (intros idx Hidx%Hfocal; rewrite Hv0; lia).
  set (v1 := store_all (focal_length_idxs c) f v0).
  assert (Hv1 : length v1 = Z.to_nat (num_params c))
    by (unfold v1; by rewrite store_all_length).
  rewrite bind_run. unfold idxs_at at 1. simpl.
  rewrite bind_run, vector_store_ok by (rewrite Hv1; lia).
  rewrite bind_run. unfold idxs_at. simpl.
  rewrite bind_run, vector_store_ok by (rewrite length_insert, Hv1; lia).
  apply store_each_ok.
  intros idx Hidx%Hextra. rewrite !length_insert, Hv1. lia.
Qed.

Lemma CameraModelInitializeParams_registered id c f w h params :
  switch_case id = Some c ->
  well_formed c = true ->
  CameraModelInitializeParams id f w h params
  = (Normal tt, initialized c f w h params).
Proof.
  intros Hc Hwf. unfold CameraModelInitializeParams. rewrite Hc.
  by apply InitializeParams_case_ok.
Qed.

(** ** [CameraModelInitializeParams] on a registered id *)


(** C6: for a registered [model_id], the vector that
    [CameraModelInitializeParams] produces passes the structural check:
    the Initializer returns, and [CameraModelVerifyParams] returns true on
    the vector it leaves.  The values of [focal_length], [width] and
    [height] are free. *)
Theorem CameraModelInitializeParams_verifies
    id c focal_length width height params :
  switch_case id = Some c ->
  well_formed c = true ->
  fst (CameraModelInitializeParams id focal_length width height params)
  = Normal tt
  /\ CameraModelVerifyParams id
       (snd (CameraModelInitializeParams id focal_length width height params))
     = Normal true.
Proof.
  intros Hc Hwf.
  rewrite (CameraModelInitializeParams_registered id c) by done. simpl.
  split; [done|].
  rewrite (CameraModelVerifyParams_registered id c) by done. f_equal.
  apply size_eqb_num_params.
  - apply valid_num_params_spec. by apply well_formed_spec.
  - by apply initialized_length.
Qed.

(** ** [CameraModelHasBogusParams] on a registered id *)

Lemma CameraModelHasBogusParams_registered id c params w h r1 r2 e :
  switch_case id = Some c ->
  CameraModelHasBogusParams id params w h r1 r2 e
  = Normal (HasBogusParams c params w h r1 r2 e).
Proof.
  intros Hc. unfold CameraModelHasBogusParams.
  by rewrite (switch_registered _ c).
Qed.

Lemma params_at_lookup (params : vector_double) idx :
  (N.to_nat idx < length params)%nat ->
  exists p, params !! N.to_nat idx = Some p /\ params_at params idx = p.
Proof.
  intros [p Hp]%lookup_lt_is_Some. exists p.
  unfold params_at. by rewrite Hp.
Qed.

Lemma params_at_Some (params : vector_double) idx p :
  params !! N.to_nat idx = Some p -> params_at params idx = p.
Proof. intros Hp. unfold params_at. by rewrite Hp. Qed.

(** C9: for a registered [model_id] whose member function [HasBogusParams]
    is the threshold check of the spec, and a vector of [num_params]
    elements, [CameraModelHasBogusParams] returns, and it returns true
    exactly when, with [max_dim = max(width, height)], some index of
    [focal_length_idxs] has [params[idx] / max_dim] below
    [min_focal_length_ratio] or above [max_focal_length_ratio], or some index
    of [extra_params_idxs] has the absolute value of [params[idx]] above
    [max_extra_param]. *)
Theorem CameraModelHasBogusParams_thresholds
    id c params width height min_ratio max_ratio max_extra :
  switch_case id = Some c ->
  HasBogusParams c
  = spec_HasBogusParams (focal_length_idxs c) (extra_params_idxs c) ->
  well_formed c = true ->
  Z.of_nat (length params) = num_params c ->
  exists b,
    CameraModelHasBogusParams id params width height
      min_ratio max_ratio max_extra = Normal b
    /\ (b = true <->
         (exists idx p, idx ∈ focal_length_idxs c
            /\ params !! N.to_nat idx = Some p
            /\ let ratio :=
                 PrimFloat.div p (size_t_to_double (N.max width height)) in
               PrimFloat.ltb ratio min_ratio = true
               \/ PrimFloat.ltb max_ratio ratio = true)
         \/ (exists idx p, idx ∈ extra_params_idxs c
            /\ params !! N.to_nat idx = Some p
            /\ PrimFloat.ltb max_extra (PrimFloat.abs p) = true)).
Proof.
  intros Hc Hbody Hwf Hlen.
  destruct (well_formed_spec c Hwf) as (Hn & Hfocal & _ & Hextra).
  eexists. split; [by apply CameraModelHasBogusParams_registered|].
  rewrite Hbody. unfold spec_HasBogusParams.
  rewrite orb_true_iff, !existsb_exists.
  unfold bogus_focal_length, bogus_extra_param.
  split.
  - intros [(idx & Hin%list_elem_of_In & Hb)|(idx & Hin%list_elem_of_In & Hb)].
    + left. destruct (params_at_lookup params idx) as (p & Hp & Hat).
      { apply Hfocal in Hin. lia. }
      exists idx, p. rewrite Hat in Hb.
      split; [done|]. split; [done|]. by apply orb_true_iff in Hb.
    + right. destruct (params_at_lookup params idx) as (p & Hp & Hat).
      { apply Hextra in Hin. lia. }
      exists idx, p. by rewrite Hat in Hb.
  - intros [(idx & p & Hin%list_elem_of_In & Hp%params_at_Some & Hb)
           |(idx & p & Hin%list_elem_of_In & Hp%params_at_Some & Hb)].
    + left. exists idx. split; [done|]. rewrite Hp. by apply orb_true_iff.
    + right. exists idx. by rewrite Hp.
Qed.

(** * Further properties of the registry and of the dispatch *)

(** ** The two maps *)

Lemma CAMERA_MODEL_NAME_TO_ID_lookup name :
  CAMERA_MODEL_NAME_TO_ID !! name =
    model_id <$> List.find (fun c => bool_decide (model_name c = name))
                           CAMERA_MODEL_CASES.
Proof.
  unfold CAMERA_MODEL_NAME_TO_ID, InitialzeCameraModelNameToId.
  by rewrite foldl_emplace_lookup, lookup_empty.
Qed.

Lemma CAMERA_MODEL_ID_TO_NAME_lookup id :
  CAMERA_MODEL_ID_TO_NAME !! id =
    model_name <$> List.find (fun c => bool_decide (model_id c = id))
                             CAMERA_MODEL_CASES.
Proof.
  unfold CAMERA_MODEL_ID_TO_NAME, InitialzeCameraModelIdToName.
  by rewrite foldl_emplace_lookup, lookup_empty.
Qed.

Lemma find_key_first `{EqDecision K} (key : CameraModel -> K) l1 c l2 :
  (forall c', c' ∈ l1 -> key c' <> key c) ->
  List.find (fun c' => bool_decide (key c' = key c)) (l1 ++ c :: l2) = Some c.
Proof.
  induction l1 as [|c1 l1 IH]; intros Hl1; simpl.
  - by rewrite bool_decide_eq_true_2.
  - rewrite bool_decide_eq_false_2 by (apply Hl1; left).
    apply IH. intros c' Hc'. apply Hl1. by right.
Qed.

Lemma find_key_is_None `{EqDecision K} (key : CameraModel -> K) l k :
  (forall c, c ∈ l -> key c <> k) ->
  List.find (fun c => bool_decide (key c = k)) l = None.
Proof.
  induction l as [|c l IH]; intros Hl; simpl; [done|].
  rewrite bool_decide_eq_false_2 by (apply Hl; left).
  apply IH. intros c' Hc'. apply Hl. by right.
Qed.

(** X1: the two static maps are inverse to each other when ids and names
    are unique: [CAMERA_MODEL_NAME_TO_ID] takes [name] to [id] exactly when
    [CAMERA_MODEL_ID_TO_NAME] takes [id] to [name], for every name and id,
    registered or not. *)
Theorem registry_maps_inverse name id :
  NoDup (model_id <$> CAMERA_MODEL_CASES) ->
  NoDup (model_name <$> CAMERA_MODEL_CASES) ->
  CAMERA_MODEL_NAME_TO_ID !! name = Some id
  <-> CAMERA_MODEL_ID_TO_NAME !! id = Some name.
Proof.
  intros Hids Hnames.
  rewrite CAMERA_MODEL_NAME_TO_ID_lookup, CAMERA_MODEL_ID_TO_NAME_lookup.
  split.
  - destruct (List.find _ _) as [c|] eqn:Hf; [|done].
    intros [= <-]. apply find_key_Some in Hf as [Hc <-].
    by rewrite find_key_elem.
  - destruct (List.find _ _) as [c|] eqn:Hf; [|done].
    intros [= <-]. apply find_key_Some in Hf as [Hc <-].
    by rewrite find_key_elem.
Qed.

(** X2: [emplace] keeps the first element of a key.  When several camera
    models carry the name of [c], [CameraModelNameToId] returns the id of the
    first of them in the order of [CAMERA_MODEL_CASES], whatever comes after
    it; and likewise [CameraModelIdToName] for models that share an id. *)
Theorem registry_first_wins l1 c l2 :
  CAMERA_MODEL_CASES = l1 ++ c :: l2 ->
  ((forall c', c' ∈ l1 -> model_name c' <> model_name c) ->
   CameraModelNameToId (model_name c) = model_id c)
  /\ ((forall c', c' ∈ l1 -> model_id c' <> model_id c) ->
      CameraModelIdToName (model_id c) = model_name c).
Proof.
  intros Hcases. split; intros Hfirst.
  - rewrite CameraModelNameToId_find, Hcases. by rewrite find_key_first.
  - rewrite CameraModelIdToName_find, Hcases. by rewrite find_key_first.
Qed.

(** X3: the sentinels are exact tests of membership as long as they are not
    registered themselves.  When no camera model has the id
    [kInvalidCameraModelId], [CameraModelNameToId] returns it exactly for the
    names that are not registered; when no camera model is named
    "INVALID_CAMERA_MODEL", [CameraModelIdToName] returns that string
    exactly for the ids that are not registered. *)
Theorem sentinel_iff_unregistered :
  (unregistered kInvalidCameraModelId ->
   forall name,
     CameraModelNameToId name = kInvalidCameraModelId
     <-> unregistered_name name)
  /\ (unregistered_name "INVALID_CAMERA_MODEL" ->
      forall id,
        CameraModelIdToName id = "INVALID_CAMERA_MODEL"%string
        <-> unregistered id).
Proof.
  split.
  - intros Hsent name. rewrite CameraModelNameToId_find. split.
    + destruct (List.find _ _) as [c|] eqn:Hf.
      * intros Heq. apply find_key_Some in Hf as [Hc _].
        by destruct (Hsent c Hc).
      * intros _. unfold unregistered_name. by apply find_key_None.
    + intros Hun. by rewrite find_key_is_None.
  - intros Hsent id. rewrite CameraModelIdToName_find. split.
    + destruct (List.find _ _) as [c|] eqn:Hf.
      * intros Heq. apply find_key_Some in Hf as [Hc _].
        by destruct (Hsent c Hc).
      * intros _. unfold unregistered. by apply find_key_None.
    + intros Hun. by rewrite find_key_is_None.
Qed.

(** X4: the sentinels are taken to each other.  If the id
    [kInvalidCameraModelId] is not registered, the name that
    [CameraModelIdToName] gives for the id of an unregistered name is
    "INVALID_CAMERA_MODEL"; if the name "INVALID_CAMERA_MODEL" is not
    registered, the id that [CameraModelNameToId] gives for the name of an
    unregistered id is [kInvalidCameraModelId]. *)
Theorem sentinel_round_trip :
  (unregistered kInvalidCameraModelId ->
   forall name, unregistered_name name ->
     CameraModelIdToName (CameraModelNameToId name)
     = "INVALID_CAMERA_MODEL"%string)
  /\ (unregistered_name "INVALID_CAMERA_MODEL" ->
      forall id, unregistered id ->
        CameraModelNameToId (CameraModelIdToName id)
        = kInvalidCameraModelId).
Proof.
  split.
  - intros Hsent name Hname.
    assert (CameraModelNameToId name = kInvalidCameraModelId) as ->.
    { rewrite CameraModelNameToId_find. by rewrite find_key_is_None. }
    rewrite CameraModelIdToName_find. by rewrite find_key_is_None.
  - intros Hsent id Hid.
    assert (CameraModelIdToName id = "INVALID_CAMERA_MODEL"%string) as ->.
    { rewrite CameraModelIdToName_find. by rewrite find_key_is_None. }
    rewrite CameraModelNameToId_find. by rewrite find_key_is_None.
Qed.

(** ** Dispatch on ids that the registry vouches for *)

Lemma registered_switch_case id c :
  c ∈ CAMERA_MODEL_CASES -> model_id c = id ->
  exists c', switch_case id = Some c'.
Proof.
  intros Hc Hid. destruct (switch_case id) as [c'|] eqn:Hsw; [by exists c'|].
  apply switch_case_None in Hsw. by destruct (Hsw c Hc).
Qed.

Lemma CameraModelParamsInfo_registered id c :
  switch_case id = Some c -> CameraModelParamsInfo id = Normal (params_info c).
Proof.
  intros Hc. unfold CameraModelParamsInfo. by rewrite (switch_registered _ c).
Qed.

Lemma CameraModelFocalLengthIdxs_registered id c :
  switch_case id = Some c ->
  CameraModelFocalLengthIdxs id = Normal (focal_length_idxs c).
Proof.
  intros Hc. unfold CameraModelFocalLengthIdxs.
  by rewrite (switch_registered _ c).
Qed.

Lemma CameraModelPrincipalPointIdxs_registered id c :
  switch_case id = Some c ->
  CameraModelPrincipalPointIdxs id = Normal (principal_point_idxs c).
Proof.
  intros Hc. unfold CameraModelPrincipalPointIdxs.
  by rewrite (switch_registered _ c).
Qed.

Lemma CameraModelExtraParamsIdxs_registered id c :
  switch_case id = Some c ->
  CameraModelExtraParamsIdxs id = Normal (extra_params_idxs c).
Proof.
  intros Hc. unfold CameraModelExtraParamsIdxs.
  by rewrite (switch_registered _ c).
Qed.

(** X5: every camera model of the table is reached through its name.  With
    unique ids and names, the id that [CameraModelNameToId] returns for the
    name of [c] makes the four lookups return the static members of [c], and
    makes [CameraModelHasBogusParams] return what the member function of [c]
    returns, whatever follows the last [case] of the switch. *)
Theorem dispatch_by_name c params w h min_ratio max_ratio max_extra :
  NoDup (model_id <$> CAMERA_MODEL_CASES) ->
  NoDup (model_name <$> CAMERA_MODEL_CASES) ->
  c ∈ CAMERA_MODEL_CASES ->
  let id := CameraModelNameToId (model_name c) in
  CameraModelParamsInfo id = Normal (params_info c)
  /\ CameraModelFocalLengthIdxs id = Normal (focal_length_idxs c)
  /\ CameraModelPrincipalPointIdxs id = Normal (principal_point_idxs c)
  /\ CameraModelExtraParamsIdxs id = Normal (extra_params_idxs c)
  /\ CameraModelHasBogusParams id params w h min_ratio max_ratio max_extra
     = Normal (HasBogusParams c params w h min_ratio max_ratio max_extra).
Proof.
  intros Hids Hnames Hc id.
  assert (Hid : id = model_id c).
  { unfold id. rewrite CameraModelNameToId_find. by rewrite find_key_elem. }
  assert (Hsw : switch_case id = Some c)
    by (rewrite Hid; by apply switch_case_elem).
  split; [by apply CameraModelParamsInfo_registered|].
  split; [by apply CameraModelFocalLengthIdxs_registered|].
  split; [by apply CameraModelPrincipalPointIdxs_registered|].
  split; [by apply CameraModelExtraParamsIdxs_registered|].
  by apply CameraModelHasBogusParams_registered.
Qed.

(** X6: an id that [CameraModelNameToId] returns and that is not the
    sentinel is safe to dispatch on.  It is the id of a camera model, so no
    lookup and no check on it reaches what follows the last [case]: the four
    lookups return the static members of a camera model with that id,
    [CameraModelVerifyParams] does not throw, and
    [CameraModelHasBogusParams] returns what the member function of that
    camera model returns. *)
Theorem NameToId_guards_dispatch name :
  CameraModelNameToId name <> kInvalidCameraModelId ->
  exists c,
    c ∈ CAMERA_MODEL_CASES
    /\ model_id c = CameraModelNameToId name
    /\ CameraModelParamsInfo (CameraModelNameToId name)
       = Normal (params_info c)
    /\ CameraModelFocalLengthIdxs (CameraModelNameToId name)
       = Normal (focal_length_idxs c)
    /\ CameraModelPrincipalPointIdxs (CameraModelNameToId name)
       = Normal (principal_point_idxs c)
    /\ CameraModelExtraParamsIdxs (CameraModelNameToId name)
       = Normal (extra_params_idxs c)
    /\ (forall params,
          CameraModelVerifyParams (CameraModelNameToId name) params
          <> Thrown)
    /\ (forall params w h min_ratio max_ratio max_extra,
          CameraModelHasBogusParams (CameraModelNameToId name)
            params w h min_ratio max_ratio max_extra
          = Normal (HasBogusParams c
                      params w h min_ratio max_ratio max_extra)).
Proof.
  intros Hne.
  assert (exists c0, c0 ∈ CAMERA_MODEL_CASES
                     /\ model_id c0 = CameraModelNameToId name)
    as (c0 & Hc0 & Hid0).
  { rewrite CameraModelNameToId_find in *.
    destruct (List.find _ _) as [c0|] eqn:Hf; [|done].
    exists c0. by apply find_key_Some in Hf as [Hc0 _]. }
  destruct (registered_switch_case _ c0 Hc0 Hid0) as [c Hsw].
  destruct (switch_case_Some _ _ Hsw) as [Hc Hid].
  exists c. split; [done|]. split; [done|].
  split; [by apply CameraModelParamsInfo_registered|].
  split; [by apply CameraModelFocalLengthIdxs_registered|].
  split; [by apply CameraModelPrincipalPointIdxs_registered|].
  split; [by apply CameraModelExtraParamsIdxs_registered|].
  split.
  - intros params. by rewrite (CameraModelVerifyParams_registered _ c).
  - intros. by apply CameraModelHasBogusParams_registered.
Qed.

(** X7: on an unregistered id all seven functions with a switch end the
    same way, since one macro closes every switch: either each returns its
    fall-back (nothing, "Camera model does not exist", the empty vector
    three times, false twice) or each throws.  The vector of the Initializer
    is untouched in both cases. *)
Theorem unregistered_uniform
    id f w h params params1 params2 w' h' min_ratio max_ratio max_extra :
  unregistered id ->
  (CameraModelInitializeParams id f w h params = (Normal tt, params)
   /\ CameraModelParamsInfo id = Normal "Camera model does not exist"%string
   /\ CameraModelFocalLengthIdxs id = Normal []
   /\ CameraModelPrincipalPointIdxs id = Normal []
   /\ CameraModelExtraParamsIdxs id = Normal []
   /\ CameraModelVerifyParams id params1 = Normal false
   /\ CameraModelHasBogusParams id params2 w' h'
        min_ratio max_ratio max_extra = Normal false)
  \/ (CameraModelInitializeParams id f w h params = (Thrown, params)
      /\ CameraModelParamsInfo id = Thrown
      /\ CameraModelFocalLengthIdxs id = Thrown
      /\ CameraModelPrincipalPointIdxs id = Thrown
      /\ CameraModelExtraParamsIdxs id = Thrown
      /\ CameraModelVerifyParams id params1 = Thrown
      /\ CameraModelHasBogusParams id params2 w' h'
           min_ratio max_ratio max_extra = Thrown).
Proof.
  intros Hun.
  rewrite CameraModelInitializeParams_unregistered by done.
  unfold CameraModelParamsInfo, CameraModelFocalLengthIdxs,
    CameraModelPrincipalPointIdxs, CameraModelExtraParamsIdxs,
    CameraModelVerifyParams, CameraModelHasBogusParams.
  rewrite !switch_unregistered by done.
  unfold unmatched. destruct switch_default; [left | right]; done.
Qed.

(** ** The stores of [CameraModelInitializeParams] *)

Lemma size_kept_ret {A} (a : A) : size_kept (mret a : M A).
Proof. by intros v. Qed.

Lemma size_kept_bind {A B} (c : M A) (k : A -> M B) :
  size_kept c -> (forall a, size_kept (k a)) -> size_kept (c ≫= k).
Proof.
  intros Hc Hk v. rewrite bind_run.
  destruct (Hc v) as [Hnt Hlen].
  destruct (c v) as [[a| |] v']; simpl in *; [|done..].
  destruct (Hk a v') as [Hnt' Hlen']. split; [done | congruence].
Qed.

Lemma size_kept_vector_store idx x : size_kept (vector_store idx x).
Proof.
  intros v. unfold vector_store. case_decide; simpl; [|done].
  by rewrite length_insert.
Qed.

Lemma size_kept_idxs_at idxs i : size_kept (idxs_at idxs i).
Proof. intros v. unfold idxs_at. by destruct (idxs !! i). Qed.

Lemma size_kept_store_each idxs x : size_kept (store_each idxs x).
Proof.
  induction idxs as [|idx idxs IH]; simpl.
  - apply size_kept_ret.
  - apply size_kept_bind; [apply size_kept_vector_store | done].
Qed.

Lemma InitializeParams_case_size c f w h v :
  (int_to_size_t (num_params c) <= vector_max_size)%N ->
  fst (InitializeParams_case c f w h v) <> Thrown
  /\ length (snd (InitializeParams_case c f w h v))
     = N.to_nat (int_to_size_t (num_params c)).
Proof.
  intros Hmax.
  pose (rest :=
          (store_each (focal_length_idxs c) f ;;
           i0 ← idxs_at (principal_point_idxs c) 0 ;
           vector_store i0 (PrimFloat.div (size_t_to_double w) 2%float) ;;
           i1 ← idxs_at (principal_point_idxs c) 1 ;
           vector_store i1 (PrimFloat.div (size_t_to_double h) 2%float) ;;
           store_each (extra_params_idxs c) 0%float) : M unit).
  assert (Hkept : size_kept rest).
  { unfold rest.
    repeat first
      [ apply size_kept_store_each
      | apply size_kept_idxs_at
      | apply size_kept_vector_store
      | apply size_kept_bind; [|intros ?] ]. }
  assert (InitializeParams_case c f w h v
          = rest (resize (N.to_nat (int_to_size_t (num_params c)))
                    0%float v)) as ->.
  { unfold InitializeParams_case. by rewrite bind_run, vector_resize_ok. }
  destruct (Hkept (resize (N.to_nat (int_to_size_t (num_params c)))
                     0%float v)) as [Hnt ->].
  split; [done | apply length_resize].
Qed.

Lemma InitializeParams_case_throws c f w h v :
  (vector_max_size < int_to_size_t (num_params c))%N ->
  InitializeParams_case c f w h v = (Thrown, v).
Proof.
  intros Hmax. unfold InitializeParams_case.
  by rewrite bind_run, vector_resize_throws.
Qed.

Lemma valid_num_params_max_size c :
  valid_num_params c = true ->
  (int_to_size_t (num_params c) <= vector_max_size)%N.
Proof.
  intros Hv%valid_num_params_spec.
  rewrite int_to_size_t_small by lia. unfold vector_max_size. lia.
Qed.

Lemma negative_num_params_max_size c :
  -2147483648 <= num_params c < 0 ->
  (vector_max_size < int_to_size_t (num_params c))%N.
Proof.
  intros Hn. unfold int_to_size_t, vector_max_size.
  replace (num_params c mod 18446744073709551616)
    with (num_params c + 18446744073709551616); [lia|].
  apply Z.mod_unique with (q := -1); lia.
Qed.

Lemma CameraModelInitializeParams_not_thrown id c f w h params :
  switch_case id = Some c ->
  valid_num_params c = true ->
  fst (CameraModelInitializeParams id f w h params) <> Thrown.
Proof.
  intros Hc Hv. unfold CameraModelInitializeParams. rewrite Hc.
  by apply InitializeParams_case_size, valid_num_params_max_size.
Qed.

(** X8: the size of the vector on a registered id.  When [num_params] is a
    non-negative [int], the Initializer does not throw and no store changes
    the size that the resize of line 104 gave the vector: whenever the call
    returns, [CameraModelVerifyParams] accepts the vector it leaves, whatever
    the index lists of the camera model are.  When [num_params] is a negative
    [int], its conversion to [size_t] is above [max_size()]: the resize
    throws and the vector is left as it was. *)
Theorem CameraModelInitializeParams_keeps_size id c f w h params :
  switch_case id = Some c ->
  (valid_num_params c = true ->
   fst (CameraModelInitializeParams id f w h params) <> Thrown
   /\ (fst (CameraModelInitializeParams id f w h params) = Normal tt ->
       CameraModelVerifyParams id
         (snd (CameraModelInitializeParams id f w h params)) = Normal true))
  /\ (-2147483648 <= num_params c < 0 ->
      CameraModelInitializeParams id f w h params = (Thrown, params)).
Proof.
  intros Hc. unfold CameraModelInitializeParams. rewrite Hc. split.
  - intros Hv%valid_num_params_max_size.
    destruct (InitializeParams_case_size c f w h params Hv) as [Hnt Hlen].
    split; [done|]. intros _.
    rewrite (CameraModelVerifyParams_registered id c) by done.
    f_equal. rewrite Hlen. apply N.eqb_eq. lia.
  - intros Hneg%negative_num_params_max_size.
    by apply InitializeParams_case_throws.
Qed.

Lemma mem_true idx idxs : mem idx idxs = true -> idx ∈ idxs.
Proof.
  unfold mem. intros (i & Hin%list_elem_of_In & ->%N.eqb_eq)%existsb_exists.
  done.
Qed.

Lemma initialized_lookup_unwritten c f w h (params : vector_double) j :
  well_formed c = true ->
  Z.of_N j < num_params c ->
  written c j = false ->
  initialized c f w h params !! N.to_nat j
  = Some (default 0%float (params !! N.to_nat j)).
Proof.
  intros (Hn & _ & (i0 & i1 & rest & Hpp & _) & _)%well_formed_spec Hj Hw.
  unfold written, initialized in *. rewrite Hpp in *.
  rewrite !orb_false_iff in Hw. destruct Hw as [[Hfocal [H0 H1]] Hextra].
  apply mem_false in Hfocal, Hextra. apply N.eqb_neq in H0, H1.
  rewrite store_all_lookup_notin by done.
  rewrite !list_lookup_insert_ne by lia.
  rewrite store_all_lookup_notin by done.
  destruct (decide (N.to_nat j < length params)%nat) as [Hlt|Hge].
  - rewrite lookup_resize by lia.
    destruct (lookup_lt_is_Some_2 params _ Hlt) as [p Hp]. by rewrite Hp.
  - rewrite lookup_resize_new by lia.
    by rewrite (lookup_ge_None_2 params) by lia.
Qed.

Lemma initialized_lookup_written c f w h (params params' : vector_double) j :
  well_formed c = true ->
  written c j = true ->
  initialized c f w h params !! N.to_nat j
  = initialized c f w h params' !! N.to_nat j.
Proof.
  intros Hwf Hw.
  destruct (well_formed_spec c Hwf)
    as (Hn & Hfocal & (i0 & i1 & rest & Hpp & Hi0 & Hi1) & Hextra).
  unfold written, initialized in *. rewrite Hpp in *.
  set (n := Z.to_nat (num_params c)).
  assert (Hlen : forall p : vector_double,
             length (store_all (focal_length_idxs c) f
                       (resize n 0%float p)) = n)
    by (intros p; by rewrite store_all_length, length_resize).
  destruct (mem j (extra_params_idxs c)) eqn:He.
  { apply mem_true in He.
    rewrite !store_all_lookup; [done|done|..|done|];
      rewrite !length_insert, Hlen; apply Hextra in He; lia. }
  apply mem_false in He. rewrite !store_all_lookup_notin by done.
  destruct (N.eqb_spec j i1) as [->|H1].
  { rewrite !list_lookup_insert_eq; [done|..];
      rewrite length_insert, Hlen; lia. }
  rewrite !(list_lookup_insert_ne _ (N.to_nat i1)) by lia.
  destruct (N.eqb_spec j i0) as [->|H0].
  { rewrite !list_lookup_insert_eq; [done|..]; rewrite Hlen; lia. }
  rewrite !(list_lookup_insert_ne _ (N.to_nat i0)) by lia.
  rewrite !orb_false_r in Hw. apply mem_true in Hw.
  rewrite !store_all_lookup; [done|done|..|done|];
    rewrite length_resize; apply Hfocal in Hw; lia.
Qed.

Lemma covered_spec c j :
  covered c = true -> Z.of_N j < num_params c -> written c j = true.
Proof.
  unfold covered. rewrite forallb_forall. intros Hall Hj.
  replace j with (N.of_nat (N.to_nat j)) by lia.
  apply Hall, in_seq. lia.
Qed.

(** X9: the Initializer does not clear the vector.  For a camera model with
    its indices below [num_params], a slot below [num_params] that is in none
    of the three index groups holds after the call what the caller's vector
    held there, and zero if the caller's vector was too short to have that
    slot. *)
Theorem CameraModelInitializeParams_keeps_unwritten id c f w h params j :
  switch_case id = Some c ->
  well_formed c = true ->
  Z.of_N j < num_params c ->
  written c j = false ->
  snd (CameraModelInitializeParams id f w h params) !! N.to_nat j
  = Some (default 0%float (params !! N.to_nat j)).
Proof.
  intros Hc Hwf Hj Hw.
  rewrite (CameraModelInitializeParams_registered id c) by done.
  by apply initialized_lookup_unwritten.
Qed.

(** X10: initializing twice is initializing once.  For a camera model with
    its indices below [num_params], a second call with the same arguments
    on the vector that the first call left returns the same vector, also
    when index groups overlap or leave slots out. *)
Theorem CameraModelInitializeParams_idempotent id c f w h params :
  switch_case id = Some c ->
  well_formed c = true ->
  CameraModelInitializeParams id f w h
    (snd (CameraModelInitializeParams id f w h params))
  = CameraModelInitializeParams id f w h params.
Proof.
  intros Hc Hwf.
  rewrite !(CameraModelInitializeParams_registered id c) by done.
  simpl. f_equal. apply list_eq. intros i.
  pose proof (initialized_length c f w h params Hwf) as Hlen.
  pose proof (initialized_length c f w h
                (initialized c f w h params) Hwf) as Hlen'.
  destruct (decide (Z.of_nat i < num_params c)) as [Hi|Hi].
  - replace i with (N.to_nat (N.of_nat i)) by lia.
    destruct (written c (N.of_nat i)) eqn:Hw.
    + by apply initialized_lookup_written.
    + rewrite !initialized_lookup_unwritten by (done || lia). done.
  - rewrite !lookup_ge_None_2 by lia. done.
Qed.

(** X11: when the index groups of a camera model cover every slot below
    [num_params], the vector that the Initializer leaves does not depend on
    the vector it was given: nothing of the caller's data survives. *)
Theorem CameraModelInitializeParams_forgets id c f w h params params' :
  switch_case id = Some c ->
  well_formed c = true ->
  covered c = true ->
  CameraModelInitializeParams id f w h params
  = CameraModelInitializeParams id f w h params'.
Proof.
  intros Hc Hwf Hcov.
  rewrite !(CameraModelInitializeParams_registered id c) by done.
  f_equal. apply list_eq. intros i.
  pose proof (initialized_length c f w h params Hwf) as Hlen.
  pose proof (initialized_length c f w h params' Hwf) as Hlen'.
  destruct (decide (Z.of_nat i < num_params c)) as [Hi|Hi].
  - replace i with (N.to_nat (N.of_nat i)) by lia.
    apply initialized_lookup_written; [done|].
    apply covered_spec; [done | lia].
  - rewrite !lookup_ge_None_2 by lia. done.
Qed.

(** X13: the later store wins.  For a camera model with its indices below
    [num_params], whether its index groups overlap or not, a slot below
    [num_params] holds after the call: zero if it is an extra parameter
    index; else [height / 2.0] if it is the second principal point index;
    else [width / 2.0] if it is the first; else [focal_length] if it is a
    focal length index; else what the caller's vector held there, or zero
    if that was too short. *)
Theorem CameraModelInitializeParams_last_store_wins
    id c f w h params i0 i1 j :
  switch_case id = Some c ->
  well_formed c = true ->
  principal_point_idxs c !! 0%nat = Some i0 ->
  principal_point_idxs c !! 1%nat = Some i1 ->
  Z.of_N j < num_params c ->
  snd (CameraModelInitializeParams id f w h params) !! N.to_nat j
  = Some (if mem j (extra_params_idxs c) then 0%float
          else if N.eqb j i1
               then PrimFloat.div (size_t_to_double h) 2%float
          else if N.eqb j i0
               then PrimFloat.div (size_t_to_double w) 2%float
          else if mem j (focal_length_idxs c) then f
          else default 0%float (params !! N.to_nat j)).
Proof.
  intros Hc Hwf Hp0 Hp1 Hj.
  rewrite (CameraModelInitializeParams_registered id c) by done. simpl.
  destruct (well_formed_spec c Hwf)
    as (Hn & Hfocal & (i0' & i1' & rest & Hpp & Hi0 & Hi1) & Hextra).
  rewrite Hpp in Hp0, Hp1. injection Hp0 as <-. injection Hp1 as <-.
  destruct (mem j (extra_params_idxs c)) eqn:He;
    [|destruct (N.eqb_spec j i1') as [->|H1];
      [|destruct (N.eqb_spec j i0') as [->|H0];
        [|destruct (mem j (focal_length_idxs c)) eqn:Hf]]].
  5: { apply initialized_lookup_unwritten; [done..|].
       unfold written. rewrite Hpp, Hf, He.
       by rewrite (proj2 (N.eqb_neq j i0')), (proj2 (N.eqb_neq j i1')). }
  all: unfold initialized; rewrite Hpp.
  all: set (n := Z.to_nat (num_params c)).
  all: assert (Hlen : length (store_all (focal_length_idxs c) f
                               (resize n 0%float params)) = n)
         by (by rewrite store_all_length, length_resize).
  - apply mem_true in He. apply store_all_lookup; [done|].
    rewrite !length_insert, Hlen. lia.
  - apply mem_false in He. rewrite store_all_lookup_notin by done.
    apply list_lookup_insert_eq. rewrite length_insert, Hlen. lia.
  - apply mem_false in He. rewrite store_all_lookup_notin by done.
    rewrite list_lookup_insert_ne by lia.
    apply list_lookup_insert_eq. rewrite Hlen. lia.
  - apply mem_false in He. rewrite store_all_lookup_notin by done.
    rewrite !list_lookup_insert_ne by lia.
    apply mem_true in Hf. apply store_all_lookup; [done|].
    rewrite length_resize. lia.
Qed.

(** ** The registry and the switch select the same camera model *)

Lemma switch_case_find id :
  switch_case id
  = List.find (fun c => bool_decide (model_id c = id)) CAMERA_MODEL_CASES.
Proof.
  unfold switch_case.
  induction CAMERA_MODEL_CASES as [|c l IH]; simpl; [done|].
  destruct (Z.eqb_spec (model_id c) id) as [Heq|Hne].
  - by rewrite bool_decide_eq_true_2.
  - by rewrite bool_decide_eq_false_2.
Qed.

(** X12: an id whose name is not "INVALID_CAMERA_MODEL" is safe to dispatch
    on, and the name is that of the camera model the switch selects: the
    lookups return the static members of the camera model that
    [CameraModelIdToName] names, [CameraModelVerifyParams] does not throw,
    and the Initializer does not throw when the [num_params] of that camera
    model is a non-negative [int], whatever follows the last [case]. *)
Theorem IdToName_guards_dispatch id :
  CameraModelIdToName id <> "INVALID_CAMERA_MODEL"%string ->
  exists c,
    c ∈ CAMERA_MODEL_CASES
    /\ model_id c = id
    /\ model_name c = CameraModelIdToName id
    /\ CameraModelParamsInfo id = Normal (params_info c)
    /\ CameraModelFocalLengthIdxs id = Normal (focal_length_idxs c)
    /\ CameraModelPrincipalPointIdxs id = Normal (principal_point_idxs c)
    /\ CameraModelExtraParamsIdxs id = Normal (extra_params_idxs c)
    /\ (valid_num_params c = true ->
        forall f w h params,
          fst (CameraModelInitializeParams id f w h params) <> Thrown)
    /\ (forall params, CameraModelVerifyParams id params <> Thrown).
Proof.
  intros Hne. rewrite CameraModelIdToName_find in *.
  destruct (List.find _ _) as [c|] eqn:Hf; [|done].
  assert (Hsw : switch_case id = Some c) by by rewrite switch_case_find.
  destruct (switch_case_Some _ _ Hsw) as [Hc Hid].
  exists c. split; [done|]. split; [done|]. split; [done|].
  split; [by apply CameraModelParamsInfo_registered|].
  split; [by apply CameraModelFocalLengthIdxs_registered|].
  split; [by apply CameraModelPrincipalPointIdxs_registered|].
  split; [by apply CameraModelExtraParamsIdxs_registered|].
  split.
  - intros Hv f w h params.
    by apply (CameraModelInitializeParams_not_thrown id c).
  - intros params. by rewrite (CameraModelVerifyParams_registered _ c).
Qed.

End CameraModels.

(** * The operations on the example table *)

Set Warnings "-inexact-float".

(** ** The examples of section 8 of the spec *)

Example InitializeParams_pinhole :
  CameraModelInitializeParams example_cases FallsOut
    0 1000%float 1920 1080 []
  = (Normal tt, [1000; 1000; 960; 540]%float).
Proof. vm_compute. reflexivity. Qed.

Example HasBogusParams_pinhole_plausible :
  CameraModelHasBogusParams example_cases FallsOut
    0 [1000; 1000; 960; 540]%float 1920 1080 0.1%float 2%float 1%float
  = Normal false.
Proof. vm_compute. reflexivity. Qed.

Example HasBogusParams_pinhole_small_focal_length :
  CameraModelHasBogusParams example_cases FallsOut
    0 [50; 50; 960; 540]%float 1920 1080 0.1%float 2%float 1%float
  = Normal true.
Proof. vm_compute. reflexivity. Qed.

Example HasBogusParams_radial_large_extra :
  CameraModelHasBogusParams example_cases FallsOut
    2 [1000; 1000; 960; 540; 5]%float 1920 1080 0.1%float 2%float 1%float
  = Normal true.
Proof. vm_compute. reflexivity. Qed.

Example HasBogusParams_radial_small_extra :
  CameraModelHasBogusParams example_cases FallsOut
    2 [1000; 1000; 960; 540; 0.2]%float 1920 1080 0.1%float 2%float 1%float
  = Normal false.
Proof. vm_compute. reflexivity. Qed.

Example NameToId_not_a_model :
  CameraModelNameToId example_cases (-1) "__not_a_model__" = -1.
Proof. vm_compute. reflexivity. Qed.

Example IdToName_minus_one :
  CameraModelIdToName example_cases (-1) = "INVALID_CAMERA_MODEL"%string.
Proof. vm_compute. reflexivity. Qed.

(** Names are compared character for character: another case or a prefix of
    a registered name is no registered name. *)
Example NameToId_exact :
  CameraModelNameToId example_cases (-1) "PINHOLE" = 0
  /\ CameraModelNameToId example_cases (-1) "pinhole" = -1
  /\ CameraModelNameToId example_cases (-1) "PIN" = -1
  /\ CameraModelNameToId example_cases (-1) "RADIAL" = 2.
Proof. vm_compute. auto. Qed.

(** A [size_t] with bit 63 set is rounded to the nearest [double]. *)
Example size_t_to_double_max :
  size_t_to_double 18446744073709551615 = 18446744073709551616%float
  /\ size_t_to_double 9223372036854776833 = 9223372036854777856%float.
Proof. vm_compute. auto. Qed.

(** An odd image size gives a principal point between two pixels. *)
Example InitializeParams_radial_odd_height :
  CameraModelInitializeParams example_cases Throws
    2 1000%float 1920 1081 [7; 7; 7; 7; 7; 7; 7]%float
  = (Normal tt, [1000; 1000; 960; 540.5; 0]%float).
Proof. vm_compute. reflexivity. Qed.

(** ** An unregistered id under either tail of the switch *)

(** No [case] of the table is selected: the search of [switch_case] runs. *)
Ltac no_case := apply switch_case_None; reflexivity.

Example unregistered_7 : unregistered example_cases 7.
Proof. no_case. Qed.

Example InitializeParams_unregistered_falls_out :
  CameraModelInitializeParams example_cases FallsOut
    7 1000%float 1920 1080 [3]%float
  = (Normal tt, [3]%float).
Proof. reflexivity. Qed.

Example InitializeParams_unregistered_throws :
  CameraModelInitializeParams example_cases Throws
    7 1000%float 1920 1080 [3]%float
  = (Thrown, [3]%float).
Proof. reflexivity. Qed.

Example HasBogusParams_unregistered_falls_out :
  CameraModelHasBogusParams example_cases FallsOut
    7 [50; 50; 960; 540]%float 1920 1080 0.1%float 2%float 1%float
  = Normal false.
Proof. reflexivity. Qed.

Example HasBogusParams_unregistered_throws :
  CameraModelHasBogusParams example_cases Throws
    7 [50; 50; 960; 540]%float 1920 1080 0.1%float 2%float 1%float
  = Thrown.
Proof. reflexivity. Qed.

(** ** The theorems at the example table *)

Lemma CameraModelInitializeParams_unknown_unchanged_witness :
  unregistered example_cases 7
  /\ snd (CameraModelInitializeParams example_cases FallsOut
            7 1000%float 1920 1080 [3; 4]%float) = [3; 4]%float
  /\ snd (CameraModelInitializeParams example_cases Throws
            7 1000%float 1920 1080 [3; 4]%float) = [3; 4]%float.
Proof.
  assert (Hun : unregistered example_cases 7) by no_case.
  split; [exact Hun|]. split.
  - exact (CameraModelInitializeParams_unknown_unchanged
             example_cases FallsOut 7 1000%float 1920%N 1080%N _ Hun).
  - exact (CameraModelInitializeParams_unknown_unchanged
             example_cases Throws 7 1000%float 1920%N 1080%N _ Hun).
Defined.

(** C2 as the spec states it fails: on the unregistered id 7,
    [CameraModelParamsInfo] does not return the empty string, whether the
    tail of the switch leaves the switch or throws. *)
Lemma CameraModelParamsInfo_unknown_not_empty :
  unregistered example_cases 7
  /\ CameraModelParamsInfo example_cases FallsOut 7 <> Normal ""%string
  /\ CameraModelParamsInfo example_cases Throws 7 <> Normal ""%string.
Proof.
  split; [no_case|].
  split; vm_compute; discriminate.
Qed.

Lemma introspection_unknown_witness :
  unregistered example_cases 7
  /\ CameraModelParamsInfo example_cases FallsOut 7
     = Normal "Camera model does not exist"%string
  /\ CameraModelFocalLengthIdxs example_cases FallsOut 7 = Normal []
  /\ CameraModelPrincipalPointIdxs example_cases FallsOut 7 = Normal []
  /\ CameraModelExtraParamsIdxs example_cases FallsOut 7 = Normal [].
Proof.
  assert (Hun : unregistered example_cases 7) by no_case.
  split; [exact Hun|].
  exact (introspection_unknown example_cases FallsOut 7 Hun).
Defined.

Lemma CameraModelVerifyParams_structural_witness :
  forallb valid_num_params example_cases = true
  /\ CameraModelVerifyParams example_cases FallsOut 2 [1; 2; 3; 4; 5]%float
     = Normal true
  /\ CameraModelVerifyParams example_cases FallsOut 2 [1; 2; 3; 4]%float
     = Normal false.
Proof.
  split; [reflexivity|].
  split.
  - apply (proj2 (proj1 (CameraModelVerifyParams_structural
                           example_cases FallsOut 2 [1; 2; 3; 4; 5]%float
                           eq_refl))).
    exists RadialCameraModel. split; reflexivity.
  - apply (proj1 (proj2 (CameraModelVerifyParams_structural
                           example_cases FallsOut 2 [1; 2; 3; 4]%float
                           eq_refl)) RadialCameraModel eq_refl).
    simpl. lia.
Defined.

Lemma name_id_inverse_witness :
  NoDup (model_id <$> example_cases)
  /\ NoDup (model_name <$> example_cases)
  /\ RadialCameraModel ∈ example_cases
  /\ CameraModelNameToId example_cases (-1)
       (CameraModelIdToName example_cases 2) = 2
  /\ CameraModelIdToName example_cases
       (CameraModelNameToId example_cases (-1) "RADIAL") = "RADIAL"%string.
Proof.
  assert (Hids : NoDup (model_id <$> example_cases))
    by (apply (bool_decide_unpack _); vm_compute; exact I).
  assert (Hnames : NoDup (model_name <$> example_cases))
    by (apply (bool_decide_unpack _); vm_compute; exact I).
  assert (Hin : RadialCameraModel ∈ example_cases)
    by (right; left).
  split; [exact Hids|]. split; [exact Hnames|]. split; [exact Hin|].
  exact (name_id_inverse example_cases (-1) RadialCameraModel
           Hids Hnames Hin).
Defined.


Lemma CameraModelInitializeParams_verifies_witness :
  switch_case example_cases 0 = Some PinholeCameraModel
  /\ well_formed PinholeCameraModel = true
  /\ CameraModelVerifyParams example_cases Throws 0
       (snd (CameraModelInitializeParams example_cases Throws
               0 1000%float 1920 1080 [1; 2; 3; 4; 5; 6]%float))
     = Normal true.
Proof.
  split; [reflexivity|]. split; [reflexivity|].
  exact (proj2 (CameraModelInitializeParams_verifies example_cases Throws
                  0 PinholeCameraModel 1000%float 1920%N 1080%N
                  [1; 2; 3; 4; 5; 6]%float eq_refl eq_refl)).
Defined.

Lemma CameraModelHasBogusParams_thresholds_witness :
  switch_case example_cases 2 = Some RadialCameraModel
  /\ HasBogusParams RadialCameraModel
     = spec_HasBogusParams (focal_length_idxs RadialCameraModel)
         (extra_params_idxs RadialCameraModel)
  /\ well_formed RadialCameraModel = true
  /\ Z.of_nat (length [1000; 1000; 960; 540; 5]%float)
     = num_params RadialCameraModel
  /\ CameraModelHasBogusParams example_cases FallsOut
       2 [1000; 1000; 960; 540; 5]%float 1920 1080 0.1%float 2%float 1%float
     = Normal true.
Proof.
  split; [reflexivity|]. split; [reflexivity|]. split; [reflexivity|].
  split; [reflexivity|].
  destruct (CameraModelHasBogusParams_thresholds example_cases FallsOut
              2 RadialCameraModel [1000; 1000; 960; 540; 5]%float
              1920%N 1080%N 0.1%float 2%float 1%float
              eq_refl eq_refl eq_refl eq_refl)
    as (b & Hrun & Hb).
  rewrite Hrun. f_equal. apply Hb.
  right. exists 4%N, 5%float.
  split; [left|]. split; reflexivity.
Defined.

(** ** The further properties at the example tables *)

(** No camera model of the table has the name: the search runs. *)
Ltac no_name := unfold unregistered_name; apply find_key_None; reflexivity.

Lemma registry_maps_inverse_witness :
  NoDup (model_id <$> example_cases)
  /\ NoDup (model_name <$> example_cases)
  /\ CAMERA_MODEL_NAME_TO_ID example_cases !! "RADIAL"%string = Some 2
  /\ CAMERA_MODEL_ID_TO_NAME example_cases !! 2 = Some "RADIAL"%string.
Proof.
  assert (Hids : NoDup (model_id <$> example_cases))
    by (apply (bool_decide_unpack _); vm_compute; exact I).
  assert (Hnames : NoDup (model_name <$> example_cases))
    by (apply (bool_decide_unpack _); vm_compute; exact I).
  assert (Hname : CAMERA_MODEL_NAME_TO_ID example_cases !! "RADIAL"%string
                  = Some 2) by (vm_compute; reflexivity).
  split; [exact Hids|]. split; [exact Hnames|]. split; [exact Hname|].
  exact (proj1 (registry_maps_inverse example_cases "RADIAL" 2 Hids Hnames)
           Hname).
Defined.

Lemma registry_first_wins_witness :
  [PinholeCameraModel; RadialCameraModel; RenamedCameraModel]
  = [PinholeCameraModel] ++ RadialCameraModel :: [RenamedCameraModel]
  /\ CameraModelNameToId
       [PinholeCameraModel; RadialCameraModel; RenamedCameraModel] (-1)
       "RADIAL" = 2.
Proof.
  split; [reflexivity|].
  apply (proj1 (registry_first_wins
                  [PinholeCameraModel; RadialCameraModel; RenamedCameraModel]
                  (-1) [PinholeCameraModel] RadialCameraModel
                  [RenamedCameraModel] eq_refl)).
  intros c' ->%list_elem_of_singleton. discriminate.
Defined.

Lemma sentinel_iff_unregistered_witness :
  unregistered example_cases (-1)
  /\ (CameraModelNameToId example_cases (-1) "FISHEYE" = -1
      <-> unregistered_name example_cases "FISHEYE")
  /\ unregistered_name example_cases "INVALID_CAMERA_MODEL"
  /\ (CameraModelIdToName example_cases 2 = "INVALID_CAMERA_MODEL"%string
      <-> unregistered example_cases 2).
Proof.
  assert (Hid : unregistered example_cases (-1)) by no_case.
  assert (Hname : unregistered_name example_cases "INVALID_CAMERA_MODEL")
    by no_name.
  split; [exact Hid|].
  split; [exact (proj1 (sentinel_iff_unregistered example_cases (-1))
                   Hid "FISHEYE"%string)|].
  split; [exact Hname|].
  exact (proj2 (sentinel_iff_unregistered example_cases (-1)) Hname 2).
Defined.

Lemma sentinel_round_trip_witness :
  unregistered example_cases (-1)
  /\ unregistered_name example_cases "FISHEYE"
  /\ CameraModelIdToName example_cases
       (CameraModelNameToId example_cases (-1) "FISHEYE")
     = "INVALID_CAMERA_MODEL"%string
  /\ unregistered_name example_cases "INVALID_CAMERA_MODEL"
  /\ unregistered example_cases 7
  /\ CameraModelNameToId example_cases (-1)
       (CameraModelIdToName example_cases 7) = -1.
Proof.
  assert (Hid : unregistered example_cases (-1)) by no_case.
  assert (Hfish : unregistered_name example_cases "FISHEYE") by no_name.
  assert (Hname : unregistered_name example_cases "INVALID_CAMERA_MODEL")
    by no_name.
  assert (H7 : unregistered example_cases 7) by no_case.
  split; [exact Hid|]. split; [exact Hfish|].
  split; [exact (proj1 (sentinel_round_trip example_cases (-1))
                   Hid "FISHEYE"%string Hfish)|].
  split; [exact Hname|]. split; [exact H7|].
  exact (proj2 (sentinel_round_trip example_cases (-1)) Hname 7 H7).
Defined.

Lemma dispatch_by_name_witness :
  NoDup (model_id <$> example_cases)
  /\ NoDup (model_name <$> example_cases)
  /\ RadialCameraModel ∈ example_cases
  /\ CameraModelParamsInfo example_cases Throws
       (CameraModelNameToId example_cases (-1) "RADIAL")
     = Normal "fx, fy, cx, cy, k"%string
  /\ CameraModelExtraParamsIdxs example_cases Throws
       (CameraModelNameToId example_cases (-1) "RADIAL")
     = Normal [4%N].
Proof.
  assert (Hids : NoDup (model_id <$> example_cases))
    by (apply (bool_decide_unpack _); vm_compute; exact I).
  assert (Hnames : NoDup (model_name <$> example_cases))
    by (apply (bool_decide_unpack _); vm_compute; exact I).
  assert (Hin : RadialCameraModel ∈ example_cases) by (right; left).
  split; [exact Hids|]. split; [exact Hnames|]. split; [exact Hin|].
  destruct (dispatch_by_name example_cases Throws (-1) RadialCameraModel
              [] 0%N 0%N 0%float 0%float 0%float Hids Hnames Hin)
    as (Hinfo & _ & _ & Hextra & _).
  split; [exact Hinfo | exact Hextra].
Defined.

Lemma NameToId_guards_dispatch_witness :
  CameraModelNameToId example_cases (-1) "RADIAL" <> -1
  /\ exists c,
       c ∈ example_cases
       /\ CameraModelParamsInfo example_cases Throws
            (CameraModelNameToId example_cases (-1) "RADIAL")
          = Normal (params_info c)
       /\ forall params,
            CameraModelVerifyParams example_cases Throws
              (CameraModelNameToId example_cases (-1) "RADIAL") params
            <> Thrown.
Proof.
  assert (Hne : CameraModelNameToId example_cases (-1) "RADIAL" <> -1)
    by (vm_compute; discriminate).
  split; [exact Hne|].
  destruct (NameToId_guards_dispatch example_cases Throws (-1) "RADIAL" Hne)
    as (c & Hc & _ & Hinfo & _ & _ & _ & Hverify & _).
  exists c. split; [exact Hc|]. split; [exact Hinfo | exact Hverify].
Defined.

Lemma unregistered_uniform_witness :
  unregistered example_cases 7
  /\ CameraModelVerifyParams example_cases FallsOut 7 [1; 2]%float
     = Normal false
  /\ CameraModelVerifyParams example_cases Throws 7 [1; 2]%float = Thrown.
Proof.
  assert (Hun : unregistered example_cases 7) by no_case.
  split; [exact Hun|]. split.
  - destruct (unregistered_uniform example_cases FallsOut 7 1000%float
                1920%N 1080%N [] [1; 2]%float [] 1920%N 1080%N
                0%float 0%float 0%float Hun)
      as [(_ & _ & _ & _ & _ & Hv & _)|(Hi & _)];
      [exact Hv | discriminate Hi].
  - destruct (unregistered_uniform example_cases Throws 7 1000%float
                1920%N 1080%N [] [1; 2]%float [] 1920%N 1080%N
                0%float 0%float 0%float Hun)
      as [(Hi & _)|(_ & _ & _ & _ & _ & Hv & _)];
      [discriminate Hi | exact Hv].
Defined.

Lemma CameraModelInitializeParams_keeps_size_witness :
  switch_case example_cases 2 = Some RadialCameraModel
  /\ valid_num_params RadialCameraModel = true
  /\ fst (CameraModelInitializeParams example_cases Throws
            2 1000%float 1920 1080 [1; 2; 3; 4; 5; 6; 7]%float) <> Thrown
  /\ CameraModelVerifyParams example_cases Throws 2
       (snd (CameraModelInitializeParams example_cases Throws
               2 1000%float 1920 1080 [1; 2; 3; 4; 5; 6; 7]%float))
     = Normal true
  /\ switch_case [NegativeCameraModel] 8 = Some NegativeCameraModel
  /\ CameraModelInitializeParams [NegativeCameraModel] FallsOut
       8 1000%float 1920 1080 [1; 2]%float = (Thrown, [1; 2]%float).
Proof.
  split; [reflexivity|]. split; [reflexivity|].
  destruct (proj1 (CameraModelInitializeParams_keeps_size example_cases
                     Throws 2 RadialCameraModel 1000%float 1920%N 1080%N
                     [1; 2; 3; 4; 5; 6; 7]%float eq_refl) eq_refl)
    as [Hnt Hv].
  split; [exact Hnt|]. split; [apply Hv; reflexivity|].
  split; [reflexivity|].
  apply (proj2 (CameraModelInitializeParams_keeps_size [NegativeCameraModel]
                  FallsOut 8 NegativeCameraModel 1000%float 1920%N 1080%N
                  [1; 2]%float eq_refl)).
  simpl. lia.
Defined.

Lemma CameraModelInitializeParams_keeps_unwritten_witness :
  switch_case [GappedCameraModel] 5 = Some GappedCameraModel
  /\ well_formed GappedCameraModel = true
  /\ written GappedCameraModel 3 = false
  /\ snd (CameraModelInitializeParams [GappedCameraModel] FallsOut
            5 1000%float 1920 1080 [9; 9; 9; 7; 9]%float) !! 3%nat
     = Some 7%float
  /\ snd (CameraModelInitializeParams [GappedCameraModel] FallsOut
            5 1000%float 1920 1080 [9]%float) !! 3%nat
     = Some 0%float.
Proof.
  split; [reflexivity|]. split; [reflexivity|]. split; [reflexivity|].
  split.
  - exact (CameraModelInitializeParams_keeps_unwritten [GappedCameraModel]
             FallsOut 5 GappedCameraModel 1000%float 1920%N 1080%N
             [9; 9; 9; 7; 9]%float 3%N eq_refl eq_refl eq_refl eq_refl).
  - exact (CameraModelInitializeParams_keeps_unwritten [GappedCameraModel]
             FallsOut 5 GappedCameraModel 1000%float 1920%N 1080%N
             [9]%float 3%N eq_refl eq_refl eq_refl eq_refl).
Defined.

Lemma CameraModelInitializeParams_idempotent_witness :
  switch_case [GappedCameraModel] 5 = Some GappedCameraModel
  /\ well_formed GappedCameraModel = true
  /\ CameraModelInitializeParams [GappedCameraModel] FallsOut
       5 1000%float 1920 1080
       (snd (CameraModelInitializeParams [GappedCameraModel] FallsOut
               5 1000%float 1920 1080 [9; 9; 9; 7; 9]%float))
     = (Normal tt, [1000; 960; 540; 7]%float).
Proof.
  split; [reflexivity|]. split; [reflexivity|].
  rewrite (CameraModelInitializeParams_idempotent [GappedCameraModel]
             FallsOut 5 GappedCameraModel 1000%float 1920%N 1080%N
             [9; 9; 9; 7; 9]%float eq_refl eq_refl).
  vm_compute. reflexivity.
Defined.

Lemma CameraModelInitializeParams_forgets_witness :
  switch_case example_cases 2 = Some RadialCameraModel
  /\ well_formed RadialCameraModel = true
  /\ covered RadialCameraModel = true
  /\ CameraModelInitializeParams example_cases FallsOut
       2 1000%float 1920 1080 [9; 9; 9; 9; 9; 9]%float
     = CameraModelInitializeParams example_cases FallsOut
         2 1000%float 1920 1080 [].
Proof.
  split; [reflexivity|]. split; [reflexivity|]. split; [reflexivity|].
  exact (CameraModelInitializeParams_forgets example_cases FallsOut
           2 RadialCameraModel 1000%float 1920%N 1080%N
           [9; 9; 9; 9; 9; 9]%float [] eq_refl eq_refl eq_refl).
Defined.

Lemma IdToName_guards_dispatch_witness :
  CameraModelIdToName example_cases 2 <> "INVALID_CAMERA_MODEL"%string
  /\ exists c,
       model_name c = "RADIAL"%string
       /\ CameraModelParamsInfo example_cases Throws 2
          = Normal (params_info c)
       /\ valid_num_params c = true
       /\ forall f w h params,
            fst (CameraModelInitializeParams example_cases Throws
                   2 f w h params) <> Thrown.
Proof.
  assert (Hne : CameraModelIdToName example_cases 2
                <> "INVALID_CAMERA_MODEL"%string)
    by (vm_compute; discriminate).
  split; [exact Hne|].
  destruct (IdToName_guards_dispatch example_cases Throws 2 Hne)
    as (c & Hc & Hid & Hname & Hinfo & _ & _ & _ & Hinit & _).
  assert (Hv : valid_num_params c = true).
  { apply elem_of_cons in Hc as [->|Hc]; [discriminate Hid|].
    apply elem_of_cons in Hc as [->|Hc]; [reflexivity|].
    by apply elem_of_nil in Hc. }
  exists c. split; [exact Hname|]. split; [exact Hinfo|].
  split; [exact Hv | exact (Hinit Hv)].
Defined.

Lemma CameraModelInitializeParams_last_store_wins_witness :
  switch_case [OverlappingCameraModel] 6 = Some OverlappingCameraModel
  /\ well_formed OverlappingCameraModel = true
  /\ snd (CameraModelInitializeParams [OverlappingCameraModel] FallsOut
            6 1000%float 1920 1080 []) !! 1%nat = Some 960%float
  /\ snd (CameraModelInitializeParams [OverlappingCameraModel] FallsOut
            6 1000%float 1920 1080 []) !! 2%nat = Some 0%float.
Proof.
  split; [reflexivity|]. split; [reflexivity|]. split.
  - exact (CameraModelInitializeParams_last_store_wins
             [OverlappingCameraModel] FallsOut 6 OverlappingCameraModel
             1000%float 1920%N 1080%N [] 1%N 2%N 1%N
             eq_refl eq_refl eq_refl eq_refl eq_refl).
  - exact (CameraModelInitializeParams_last_store_wins
             [OverlappingCameraModel] FallsOut 6 OverlappingCameraModel
             1000%float 1920%N 1080%N [] 1%N 2%N 2%N
             eq_refl eq_refl eq_refl eq_refl eq_refl).
Defined.
